(** * CreateCustomFolder: the legend parser [read_legend] and the folder
    namer [create_folder] of [CreateCustomFolder.py], as a shallow
    embedding over the Standard Library.

    A pandas DataFrame is modelled as its column count and its rows, each a
    list of cells (a well-formed table has every row of length [ncols]);
    columns are addressed by position, as [df.columns[k]] does.  The result
    dictionary is a Python [dict]: an association list whose updates keep
    the first insertion position and overwrite the value. *)

From Stdlib Require Import String Ascii List Arith Lia Bool.
Import ListNotations.
Open Scope string_scope.
Open Scope list_scope.

(** ** Cells and Python string helpers *)

(** A DataFrame cell: missing ([NaN]), a string, or another value
    (a number, a date...) carried with its [str()] representation. *)
Inductive cell : Type :=
| CNaN : cell
| CStr : string -> cell
| COther : string -> cell.

(** [pd.notna] *)
Definition notna (c : cell) : bool :=
  match c with CNaN => false | _ => true end.

(** [str(c)] on a non-missing cell. *)
Definition str (c : cell) : string :=
  match c with CNaN => "nan" | CStr s => s | COther r => r end.

(** Whitespace removed by Python's [str.strip()], on the ASCII characters
    the cells are modelled with: tab to carriage return, the separators
    0x1c-0x1f, and space. *)
Definition is_space (a : ascii) : bool :=
  match nat_of_ascii a with
  | 32 | 9 | 10 | 11 | 12 | 13 | 28 | 29 | 30 | 31 => true
  | _ => false
  end.

Fixpoint lstrip (s : string) : string :=
  match s with
  | EmptyString => EmptyString
  | String a r => if is_space a then lstrip r else s
  end.

Definition rstrip (s : string) : string :=
  string_of_list_ascii
    (rev (list_ascii_of_string (lstrip (string_of_list_ascii
       (rev (list_ascii_of_string s)))))).

(** [s.strip()] *)
Definition strip (s : string) : string := lstrip (rstrip s).

(** Decimal rendering of a row index, as in an f-string. *)
Fixpoint digits_of (fuel n : nat) (acc : string) : string :=
  match fuel with
  | 0 => acc
  | S f =>
      let d := String (ascii_of_nat (48 + n mod 10)) EmptyString in
      if Nat.ltb n 10 then (d ++ acc)%string else digits_of f (n / 10) (d ++ acc)%string
  end.

Definition nat_to_string (n : nat) : string := digits_of (S n) n "".

(** "_".join(xs) *)
Definition join (sep : string) (xs : list string) : string :=
  String.concat sep xs.

(** ** Configuration (module-level constant sets) *)

Definition mem (s : string) (xs : list string) : bool :=
  existsb (String.eqb s) xs.

Definition TARGET_WITH_ABBREVIATION : list string :=
  ["Frame Version"; "Core Version"; "Gasket Version"; "Pump"].
Definition SECOND_BLANK_STOP : list string :=
  ["Frame Version"; "Core Version"; "Gasket Version"].
Definition FIRST_BLANK_STOP : list string :=
  ["Device Name"; "Coolant"; "Pump"].
Definition TARGET_WITHOUT_ABBREVIATION : list string :=
  ["Device Name"; "Coolant"].
Definition SKIP : list string :=
  ["OCCT Version"; "OCCT Test Setting"; "Fan Settings"; "CPU model"].

(** ** Tables, dictionaries, results *)

Record table : Type := mk_table { ncols : nat; rows : list (list cell) }.

Definition n_rows (t : table) : nat := length (rows t).

(** [df.loc[i].tolist()] *)
Definition row_at (t : table) (i : nat) : list cell := nth i (rows t) [].

(** [df.at[i, df.columns[col]]] *)
Definition cell_at (t : table) (i col : nat) : cell := nth col (row_at t i) CNaN.

(** The values of column [col] from row [j] to the end. *)
Definition column_from (t : table) (col j : nat) : list cell :=
  map (fun r => nth col r CNaN) (skipn j (rows t)).

Definition dict := list (string * list string).

(** [d[k] = v] on a Python dict. *)
Fixpoint dict_set (k : string) (v : list string) (d : dict) : dict :=
  match d with
  | [] => [(k, v)]
  | (k', v') :: d' =>
      if String.eqb k k' then (k, v) :: d' else (k', v') :: dict_set k v d'
  end.

(** [d.get(k)] *)
Fixpoint dict_get (k : string) (d : dict) : option (list string) :=
  match d with
  | [] => None
  | (k', v') :: d' => if String.eqb k k' then Some v' else dict_get k d'
  end.

Inductive error : Type := ValueError : string -> error.

(** Outcome of running the parser; [OutOfFuel] only arises from the fuel
    bound of the [while] loop, which the termination theorem excludes. *)
Inductive outcome (A : Type) : Type :=
| Ok : A -> outcome A
| Raise : error -> outcome A
| OutOfFuel : outcome A.
Arguments Ok {A} _.
Arguments Raise {A} _.
Arguments OutOfFuel {A}.

Definition msg_columns : string :=
  "Sheet must have at least two columns (A and B).".

Definition msg_no_abbrev (i : nat) : string :=
  ("No 'Abbreviation' column found in row " ++ nat_to_string i ++ ".")%string.

(** ** read_legend *)

(** [cell_str = str(cell).strip() if pd.notna(cell) else ""] *)
Definition cell_str (c : cell) : string := if notna c then strip (str c) else "".

(** [pd.isna(v) or str(v).strip() == ""] *)
Definition is_blank (c : cell) : bool :=
  negb (notna c) || String.eqb (strip (str c)) "".

(** [v != "?"] : the raw cell compared with the string ["?"]. *)
Definition neq_qmark (c : cell) : bool :=
  match c with CStr s => negb (String.eqb s "?") | _ => true end.

(** [isinstance(v, str) and v.strip() in candidates] *)
Definition is_abbrev_header (c : cell) : bool :=
  match c with
  | CStr s => mem (strip s) ["Abbreviation"; "Abbrevation"]
  | _ => false
  end.

(** [next((idx for idx, v in enumerate(row_values) if ...), None)] *)
Fixpoint find_abbrev_from (idx : nat) (row : list cell) : option nat :=
  match row with
  | [] => None
  | v :: r => if is_abbrev_header v then Some idx else find_abbrev_from (S idx) r
  end.

Definition find_abbrev (row : list cell) : option nat := find_abbrev_from 0 row.

(** The inner [while j < n] loop: [cells] are the cells of the value column
    from row [j] on; returns [(vals, j)] at the stop. *)
Fixpoint scan (cat : string) (cells : list cell) (blank_seen j : nat)
    (vals : list string) : list string * nat :=
  match cells with
  | [] => (vals, j)
  | v :: rest =>
      if is_blank v then
        let blank_seen := S blank_seen in
        if (Nat.eqb blank_seen 2 && mem cat SECOND_BLANK_STOP)
           || mem cat FIRST_BLANK_STOP
        then (vals, j)
        else scan cat rest blank_seen (S j) vals
      else
        scan cat rest blank_seen (S j)
             (if neq_qmark v then vals ++ [strip (str v)] else vals)
  end.

(** [vals, blank_seen, j = [], 0, i + 1] followed by the inner loop. *)
Definition scan_run (t : table) (cat : string) (use_col i : nat)
    : list string * nat :=
  scan cat (column_from t use_col (S i)) 0 (S i) [].

(** Choice of the value column for a recognised category at row [i]. *)
Definition choose_column (t : table) (cat : string) (i : nat) : outcome nat :=
  if mem cat TARGET_WITH_ABBREVIATION then
    match find_abbrev (row_at t i) with
    | None => Raise (ValueError (msg_no_abbrev i))
    | Some k => Ok k
    end
  else Ok 1.

(** The outer [while i < n] loop, one unit of fuel per iteration. *)
Fixpoint legend_loop (t : table) (fuel i : nat) (results : dict) : outcome dict :=
  match fuel with
  | 0 => OutOfFuel
  | S fuel' =>
      if Nat.ltb i (n_rows t) then
        let cs := cell_str (cell_at t i 1) in
        if mem cs (TARGET_WITH_ABBREVIATION ++ TARGET_WITHOUT_ABBREVIATION) then
          match choose_column t cs i with
          | Raise e => Raise e
          | OutOfFuel => OutOfFuel
          | Ok use_col =>
              let '(vals, j) := scan_run t cs use_col i in
              legend_loop t fuel' j (dict_set cs vals results)
          end
        else if mem cs SKIP then legend_loop t fuel' (S i) results
        else legend_loop t fuel' (S i) results
      else Ok results
  end.

Definition read_legend (t : table) : outcome dict :=
  if Nat.ltb (ncols t) 2 then Raise (ValueError msg_columns)
  else legend_loop t (S (n_rows t)) 0 [].

(** ** create_folder (the directory name) *)

Definition folder_name (selections : list string) (time_str server_str : string)
    : string :=
  join "_" (selections ++ [strip time_str; strip server_str]).

(** [s.startswith("/")] *)
Definition starts_with_slash (s : string) : bool :=
  match s with String a _ => Ascii.eqb a "/"%char | EmptyString => false end.

(** [s.endswith("/")] *)
Definition ends_with_slash (s : string) : bool :=
  match rev (list_ascii_of_string s) with
  | a :: _ => Ascii.eqb a "/"%char
  | [] => false
  end.

(** [os.path.join(a, b)] as [posixpath.join] computes it for two parts. *)
Definition os_path_join (a b : string) : string :=
  if starts_with_slash b then b
  else if String.eqb a "" || ends_with_slash a then (a ++ b)%string
  else (a ++ "/" ++ b)%string.

(** [create_folder]: the path it computes and returns; the
    [os.makedirs(full_path, exist_ok=True)] call on the file system is not
    part of the embedding. *)
Definition create_folder (base_dir : string) (selections : list string)
    (time_str server_str : string) : string :=
  os_path_join base_dir (folder_name selections time_str server_str).

(** ** The Streamlit form *)

(** The options of each selector: [[""] + OPTIONS[label]] for every label
    of [OPTIONS], in its order. *)
Definition selector_options (options : dict) : list (string * list string) :=
  map (fun kv => (fst kv, "" :: snd kv)) options.

(** What a press of "Create Folder" shows: [st.warning], [st.success] or
    [st.error], with its message. *)
Inductive ui_result : Type :=
| UIWarning : string -> ui_result
| UISuccess : string -> ui_result
| UIError : string -> ui_result.

Definition newline : string := String (ascii_of_nat 10) EmptyString.

(** The button handler (lines 135-143).  [selections] is the dict
    label -> chosen option, in the order of [OPTIONS].  [makedirs] stands
    for the file system's answer to [os.makedirs(full_path, exist_ok=True)]
    inside [create_folder]: [None] when it returns, [Some e] when it raises
    an exception whose text is [e]. *)
Definition create_button (makedirs : string -> option string) (out_dir : string)
    (selections : list (string * string)) (time_input server_input : string)
    : ui_result :=
  if existsb (fun v => String.eqb v "") (map snd selections)
     || String.eqb (strip time_input) "" || String.eqb (strip server_input) ""
  then UIWarning "Please complete all selections, time, and server fields."
  else
    let path_created :=
      create_folder out_dir (map snd selections) time_input server_input in
    match makedirs path_created with
    | None => UISuccess ("Folder created:" ++ newline ++ path_created)%string
    | Some e => UIError ("Error creating folder: " ++ e)%string
    end.

(** Keys in order of first appearance (insertion order of a dict). *)
Definition first_occurrences (l : list string) : list string :=
  fold_left (fun acc x => if mem x acc then acc else acc ++ [x]) l [].

(** [lstrip] on the characters of a string. *)
Fixpoint lstrip_l (l : list ascii) : list ascii :=
  match l with
  | [] => []
  | a :: r => if is_space a then lstrip_l r else l
  end.

(** ** The sequence of assignments [results[current_cat] = vals]

    The same outer loop as [legend_loop], recording each assignment of
    line 68 in order instead of applying it to the dictionary. *)
Fixpoint legend_events (t : table) (fuel i : nat)
    : outcome (list (string * list string)) :=
  match fuel with
  | 0 => OutOfFuel
  | S fuel' =>
      if Nat.ltb i (n_rows t) then
        let cs := cell_str (cell_at t i 1) in
        if mem cs (TARGET_WITH_ABBREVIATION ++ TARGET_WITHOUT_ABBREVIATION) then
          match choose_column t cs i with
          | Raise e => Raise e
          | OutOfFuel => OutOfFuel
          | Ok use_col =>
              let '(vals, j) := scan_run t cs use_col i in
              match legend_events t fuel' j with
              | Ok evs => Ok ((cs, vals) :: evs)
              | Raise e => Raise e
              | OutOfFuel => OutOfFuel
              end
          end
        else if mem cs SKIP then legend_events t fuel' (S i)
        else legend_events t fuel' (S i)
      else Ok []
  end.

Definition read_legend_events (t : table) : outcome (list (string * list string)) :=
  if Nat.ltb (ncols t) 2 then Raise (ValueError msg_columns)
  else legend_events t (S (n_rows t)) 0.

(** Applying a sequence of assignments to a dictionary. *)
Definition apply_events (d : dict) (evs : list (string * list string)) : dict :=
  fold_left (fun acc kv => dict_set (fst kv) (snd kv) acc) evs d.

(** The states [(i, results)] at the head of the outer [while] loop. *)
Inductive loop_reaches (t : table) : nat -> dict -> Prop :=
| reach_start : loop_reaches t 0 []
| reach_next : forall i d,
    loop_reaches t i d -> i < n_rows t ->
    mem (cell_str (cell_at t i 1))
        (TARGET_WITH_ABBREVIATION ++ TARGET_WITHOUT_ABBREVIATION) = false ->
    loop_reaches t (S i) d
| reach_run : forall i d use_col vals j,
    loop_reaches t i d -> i < n_rows t ->
    mem (cell_str (cell_at t i 1))
        (TARGET_WITH_ABBREVIATION ++ TARGET_WITHOUT_ABBREVIATION) = true ->
    choose_column t (cell_str (cell_at t i 1)) i = Ok use_col ->
    scan_run t (cell_str (cell_at t i 1)) use_col i = (vals, j) ->
    loop_reaches t j (dict_set (cell_str (cell_at t i 1)) vals d).

(** Whether a run of the parser finished (returned or raised). *)
Definition finished {A : Type} (o : outcome A) : bool :=
  match o with OutOfFuel => false | _ => true end.

(** ** Reading of the spec's run rules *)

(** The prefix of a value column before the [k]-th blank cell (all of it
    when fewer than [k] blanks occur); blanks are counted cumulatively. *)
Fixpoint upto_blank (k : nat) (cells : list cell) : list cell :=
  match cells with
  | [] => []
  | c :: r =>
      if is_blank c then
        match k with
        | 0 | 1 => []
        | S k' => c :: upto_blank k' r
        end
      else c :: upto_blank k r
  end.

(** The code's per-cell rule (lines 59-65): a cell is appended when it is
    non-blank and its raw value is not ["?"]. *)
Definition kept (c : cell) : bool := negb (is_blank c) && neq_qmark c.

(** The spec's per-cell rule: non-blank and its trimmed string is not ["?"]. *)
Definition kept_spec (c : cell) : bool :=
  negb (is_blank c) && negb (String.eqb (strip (str c)) "?").

Definition option_values_spec (cells : list cell) : list string :=
  map (fun c => strip (str c)) (filter kept_spec cells).

(** The trimmed values kept from a run of cells, in row order. *)
Definition option_values (cells : list cell) : list string :=
  map (fun c => strip (str c)) (filter kept cells).

(** The directory name as the spec words it: each selection followed by an
    underscore, then the trimmed time token, an underscore and the trimmed
    server token. *)
Definition namer_spec (selections : list string) (time_str server_str : string)
    : string :=
  fold_right (fun x acc => (x ++ "_" ++ acc)%string)
             (strip time_str ++ "_" ++ strip server_str)%string selections.

(** A table whose key column (index 1) holds [keys], with arbitrary cells
    in column 0 and arbitrary further columns. *)
Fixpoint key_rows (firsts : list cell) (keys : list string)
    (extras : list (list cell)) : list (list cell) :=
  match firsts, keys, extras with
  | a :: fs, k :: ks, e :: es => ([a; CStr k] ++ e) :: key_rows fs ks es
  | _, _, _ => []
  end.

Definition c1_keys : list string :=
  ["Device Name"; "Alpha"; ""; "Coolant"; "X"; "?"; "Y"; ""].

(** Two tables used to test the parser. *)
Definition t_qmark_padded : table :=
  mk_table 2 [[CNaN; CStr "Coolant"]; [CNaN; CStr "X"]; [CNaN; CStr " ? "]].

Definition t_pump_no_header : table :=
  mk_table 2 [[CNaN; CStr "Fan Settings"]; [CStr "x"; CStr "Pump"];
              [CNaN; CStr "P1"]].

Definition t_repeated : table :=
  mk_table 2 [[CNaN; CStr "Coolant"]; [CNaN; CStr "a"]; [CNaN; CNaN];
              [CNaN; CStr "Coolant"]; [CNaN; CStr "b"]].

Definition t_c1_sample : table :=
  mk_table 2 (key_rows (repeat CNaN 8) c1_keys (repeat [] 8)).

Definition t_reorder : table :=
  mk_table 2 (map (fun k => [CNaN; CStr k])
    ["Coolant"; "a"; ""; "Device Name"; "b"; ""; "Coolant"; "c"]).

Definition t_skip_only : table :=
  mk_table 2 [[CNaN; CStr "OCCT Version"]; [CNaN; CStr " Notes "];
              [CNaN; CStr "Fan Settings"]; [CNaN; CNaN]].

Definition t_repeat_in_run : table :=
  mk_table 2 (map (fun k => [CNaN; CStr k])
    ["Coolant"; "a"; ""; "Coolant"; "b"; "Coolant"]).

Definition t_marker_in_run : table :=
  mk_table 2 [[CNaN; CStr "Device Name"]; [CNaN; CStr "Pump"]].

(** A processed marker: an assignment recorded by [legend_events] from a
    state [(i, results)] reached by the outer scan comes from row [i], whose
    key cell names the category, with the run read from the chosen column. *)
Definition processed_marker (t : table) (e : string * list string) : Prop :=
  exists i d0 col j, loop_reaches t i d0 /\ i < n_rows t /\
    cell_str (cell_at t i 1) = fst e /\ choose_column t (fst e) i = Ok col /\
    scan_run t (fst e) col i = (snd e, j).

(** A file system on which creating any path under "/ro" fails. *)
Definition makedirs_ro (p : string) : option string :=
  if String.prefix "/ro" p then Some "[Errno 13] Permission denied" else None.

(** An option string as the parser produces it: non-empty, already stripped. *)
Definition clean_option (v : string) : Prop := v <> "" /\ strip v = v.

Definition CATEGORIES : list string :=
  TARGET_WITH_ABBREVIATION ++ TARGET_WITHOUT_ABBREVIATION.

(** An entry as the parser stores it. *)
Definition good_entry (kv : string * list string) : Prop :=
  mem (fst kv) CATEGORIES = true /\ Forall clean_option (snd kv).

(** ** Properties *)

Lemma scan_first_blank (cat : string) :
  mem cat FIRST_BLANK_STOP = true ->
  forall cells k j vals,
    scan cat cells k j vals
    = (vals ++ option_values (upto_blank 1 cells), j + length (upto_blank 1 cells)).
Proof.
  intros Hf cells; induction cells as [|c r IH]; intros k j vals;
    cbn [scan upto_blank].
  - rewrite app_nil_r, Nat.add_0_r; reflexivity.
  - destruct (is_blank c) eqn:Hb.
    + rewrite Hf, orb_true_r; simpl; rewrite app_nil_r, Nat.add_0_r; reflexivity.
    + rewrite IH; unfold option_values, kept; simpl; rewrite Hb; simpl.
      destruct (neq_qmark c); simpl;
        rewrite <- ?app_assoc, <- ?plus_n_Sm; reflexivity.
Qed.

Lemma scan_second_blank (cat : string) :
  mem cat FIRST_BLANK_STOP = false -> mem cat SECOND_BLANK_STOP = true ->
  forall cells k j vals, k < 2 ->
    scan cat cells k j vals
    = (vals ++ option_values (upto_blank (2 - k) cells),
       j + length (upto_blank (2 - k) cells)).
Proof.
  intros Hf Hs cells; induction cells as [|c r IH]; intros k j vals Hk;
    cbn [scan upto_blank].
  - rewrite app_nil_r, Nat.add_0_r; reflexivity.
  - destruct (is_blank c) eqn:Hb.
    + rewrite Hf, Hs, orb_false_r, andb_true_r.
      destruct k as [|[|k]]; simpl; try lia.
      * rewrite (IH 1 (S j) vals) by lia; simpl.
        unfold option_values, kept; simpl; rewrite Hb; simpl.
        rewrite <- plus_n_Sm; reflexivity.
      * rewrite app_nil_r, Nat.add_0_r; reflexivity.
    + rewrite IH by exact Hk; unfold option_values, kept; simpl; rewrite Hb; simpl.
      destruct (neq_qmark c); simpl;
        rewrite <- ?app_assoc, <- ?plus_n_Sm; reflexivity.
Qed.

Lemma length_column_from (t : table) (col j : nat) :
  length (column_from t col j) = n_rows t - j.
Proof. unfold column_from, n_rows; rewrite length_map, length_skipn; reflexivity. Qed.

(** C1: the worked scenario.  For a table of at least two columns whose
    key column holds ["Device Name", "Alpha", "", "Coolant", "X", "?", "Y", ""],
    whatever the other columns contain, the parser returns exactly
    {"Device Name": ["Alpha"], "Coolant": ["X", "Y"]}. *)
Theorem read_legend_scenario (nc : nat) (firsts : list cell)
    (extras : list (list cell)) :
  2 <= nc -> length firsts = 8 -> length extras = 8 ->
  read_legend (mk_table nc (key_rows firsts c1_keys extras))
  = Ok [("Device Name", ["Alpha"]); ("Coolant", ["X"; "Y"])].
Proof.
  intros Hnc Hf He.
  do 8 (destruct firsts as [|? firsts]; [discriminate|]).
  destruct firsts; [|discriminate].
  do 8 (destruct extras as [|? extras]; [discriminate|]).
  destruct extras; [|discriminate].
  unfold read_legend; simpl ncols.
  destruct (Nat.ltb_spec nc 2); [lia|].
  reflexivity.
Qed.

Lemma read_legend_scenario_witness :
  (2 <= 3 /\ length (repeat CNaN 8) = 8 /\ length (repeat [CStr "z"] 8) = 8) /\
  read_legend (mk_table 3 (key_rows (repeat CNaN 8) c1_keys (repeat [CStr "z"] 8)))
  = Ok [("Device Name", ["Alpha"]); ("Coolant", ["X"; "Y"])].
Proof.
  split; [repeat split; simpl; lia|].
  apply read_legend_scenario; simpl; lia.
Defined.

(** C3: for a second-blank-stop category the run ends exactly at the second
    blank cell of the value column, counted cumulatively over the run (a
    value row between the two blanks does not reset the count); with fewer
    than two blanks it runs to the end of the table.  The collected values
    and the stopping row are those of the prefix before the second blank. *)
Theorem scan_run_second_blank_stop (t : table) (cat : string) (col i : nat) :
  mem cat SECOND_BLANK_STOP = true ->
  scan_run t cat col i
  = (option_values (upto_blank 2 (column_from t col (S i))),
     S i + length (upto_blank 2 (column_from t col (S i)))).
Proof.
  intros Hs; unfold scan_run.
  assert (Hf : mem cat FIRST_BLANK_STOP = false).
  { revert Hs; unfold mem, SECOND_BLANK_STOP, FIRST_BLANK_STOP; simpl.
    destruct (String.eqb_spec cat "Frame Version"); subst; [reflexivity|].
    destruct (String.eqb_spec cat "Core Version"); subst; [reflexivity|].
    destruct (String.eqb_spec cat "Gasket Version"); subst; [reflexivity|].
    discriminate. }
  rewrite (scan_second_blank cat Hf Hs _ 0) by lia; reflexivity.
Qed.

Lemma scan_run_second_blank_stop_witness :
  let t := mk_table 2 [[CNaN; CStr "Frame Version"]; [CNaN; CNaN];
                       [CNaN; CStr "a"]; [CNaN; CStr ""]; [CNaN; CStr "b"]] in
  mem "Frame Version" SECOND_BLANK_STOP = true /\
  scan_run t "Frame Version" 1 0 = (["a"], 3) /\
  scan_run t "Frame Version" 1 0
  = (option_values (upto_blank 2 (column_from t 1 1)),
     1 + length (upto_blank 2 (column_from t 1 1))).
Proof.
  intros t; split; [reflexivity|]; split; [reflexivity|].
  apply scan_run_second_blank_stop; reflexivity.
Defined.

(** C4 (divergence, the defect of C2): "Coolant" stops at its first blank,
    but the padded cell " ? " of [t_qmark_padded], whose trimmed string is
    "?", is kept: the run's list is ["X"; "?"], where the trimmed non-"?"
    values before the first blank are only ["X"]. *)
Theorem scan_run_padded_qmark_first_blank :
  mem "Coolant" FIRST_BLANK_STOP = true /\
  scan_run t_qmark_padded "Coolant" 1 0 = (["X"; "?"], 3) /\
  option_values_spec (upto_blank 1 (column_from t_qmark_padded 1 1)) = ["X"].
Proof. split; [reflexivity|]; split; reflexivity. Qed.

(** C5: a table with fewer than two columns is rejected with the
    structural error and no mapping. *)
Theorem read_legend_too_few_columns (t : table) :
  ncols t < 2 -> read_legend t = Raise (ValueError msg_columns).
Proof.
  intros H; unfold read_legend; destruct (Nat.ltb_spec (ncols t) 2); [reflexivity | lia].
Qed.

Lemma read_legend_too_few_columns_witness :
  ncols (mk_table 1 [[CStr "Device Name"]; [CStr "Alpha"]]) < 2 /\
  read_legend (mk_table 1 [[CStr "Device Name"]; [CStr "Alpha"]])
  = Raise (ValueError msg_columns).
Proof. split; [simpl; lia | apply read_legend_too_few_columns; simpl; lia]. Defined.

(** C8: the directory name is the selections in their order, each followed
    by an underscore, then the trimmed time token, an underscore and the
    trimmed server token; the spec's example evaluates as stated. *)
Theorem folder_name_spec :
  (forall selections time_str server_str,
     folder_name selections time_str server_str
     = namer_spec selections time_str server_str) /\
  folder_name ["Alpha"; "X"] " 2025-07-23_14-00 " "Server01 "
  = "Alpha_X_2025-07-23_14-00_Server01".
Proof.
  split; [|reflexivity].
  intros sel ts ss; unfold folder_name, namer_spec, join.
  induction sel as [|x sel IH]; [reflexivity|].
  change (fold_right (fun x0 acc => (x0 ++ "_" ++ acc)%string)
            (strip ts ++ "_" ++ strip ss)%string (x :: sel))
    with (x ++ "_" ++ fold_right (fun x0 acc => (x0 ++ "_" ++ acc)%string)
            (strip ts ++ "_" ++ strip ss)%string sel)%string.
  rewrite <- IH.
  destruct sel; reflexivity.
Qed.

(** ** Termination of the two loops *)

Lemma scan_bounds (cat : string) (cells : list cell) :
  forall k j vals,
    j <= snd (scan cat cells k j vals) <= j + length cells.
Proof.
  induction cells as [|c r IH]; intros k j vals; cbn [scan length].
  - simpl; lia.
  - destruct (is_blank c).
    + destruct (_ || _); [simpl; lia|].
      specialize (IH (S k) (S j) vals); lia.
    + match goal with |- context [scan cat r k (S j) ?v] =>
        specialize (IH k (S j) v) end; lia.
Qed.

Lemma scan_run_bounds (t : table) (cat : string) (col i : nat) :
  S i <= snd (scan_run t cat col i) <= Nat.max (S i) (n_rows t).
Proof.
  unfold scan_run.
  pose proof (scan_bounds cat (column_from t col (S i)) 0 (S i) []) as H.
  rewrite length_column_from in H; lia.
Qed.

Lemma choose_column_not_out_of_fuel (t : table) (cat : string) (i : nat) :
  choose_column t cat i <> OutOfFuel.
Proof.
  unfold choose_column; destruct (mem _ _); [destruct (find_abbrev _)|];
    discriminate.
Qed.

Ltac step_loop :=
  cbn [legend_loop legend_events];
  match goal with
  | |- context [Nat.ltb ?i (n_rows ?t)] => destruct (Nat.ltb_spec i (n_rows t))
  end.

Lemma legend_loop_finished (t : table) :
  forall fuel i d, n_rows t - i < fuel -> finished (legend_loop t fuel i d) = true.
Proof.
  induction fuel as [|fuel IH]; intros i d H; [lia|].
  step_loop; [|reflexivity].
  destruct (mem _ (_ ++ _)).
  - destruct (choose_column t _ i) as [col|e|] eqn:Hc;
      [| reflexivity | exfalso; eapply choose_column_not_out_of_fuel; eauto].
    pose proof (scan_run_bounds t (cell_str (cell_at t i 1)) col i) as Hb.
    destruct (scan_run _ _ _ _) as [vals j]; simpl in Hb.
    apply IH; lia.
  - destruct (mem _ SKIP); apply IH; lia.
Qed.

Lemma legend_loop_fuel_irrelevant (t : table) :
  forall f1 f2 i d, n_rows t - i < f1 -> n_rows t - i < f2 ->
    legend_loop t f1 i d = legend_loop t f2 i d.
Proof.
  induction f1 as [|f1 IH]; intros [|f2] i d H1 H2; try lia.
  cbn [legend_loop].
  destruct (Nat.ltb_spec i (n_rows t)); [|reflexivity].
  destruct (mem _ (_ ++ _)).
  - destruct (choose_column t _ i) as [col|e|]; try reflexivity.
    pose proof (scan_run_bounds t (cell_str (cell_at t i 1)) col i) as Hb.
    destruct (scan_run _ _ _ _) as [vals j]; simpl in Hb.
    apply IH; lia.
  - destruct (mem _ SKIP); apply IH; lia.
Qed.

(** C10: the parser terminates on every table: the inner scan for the
    marker at row [i] stops at a row [j] with [i + 1 <= j] (and never past
    the end of the table), every other row advances the cursor by one, so
    the outer loop finishes within its [n + 1] iterations. *)
Theorem read_legend_terminates (t : table) :
  (forall cat col i,
     S i <= snd (scan_run t cat col i) <= Nat.max (S i) (n_rows t)) /\
  finished (read_legend t) = true.
Proof.
  split; [apply scan_run_bounds|].
  unfold read_legend; destruct (Nat.ltb _ 2); [reflexivity|].
  apply legend_loop_finished; lia.
Qed.

(** ** Reachable loop states *)

Lemma loop_reaches_run (t : table) (i : nat) (d : dict) :
  loop_reaches t i d ->
  forall fuel, n_rows t - i < fuel ->
    legend_loop t (S (n_rows t)) 0 [] = legend_loop t fuel i d.
Proof.
  induction 1 as [|i d Hr IH Hi Hm|i d col vals j Hr IH Hi Hm Hc Hs];
    intros fuel Hf.
  - apply legend_loop_fuel_irrelevant; lia.
  - rewrite (IH (S fuel)) by lia; cbn [legend_loop].
    destruct (Nat.ltb_spec i (n_rows t)); [|lia].
    rewrite Hm; destruct (mem _ SKIP); reflexivity.
  - pose proof (scan_run_bounds t (cell_str (cell_at t i 1)) col i) as Hb.
    rewrite Hs in Hb; simpl in Hb.
    rewrite (IH (S (n_rows t - i))) by lia; cbn [legend_loop].
    destruct (Nat.ltb_spec i (n_rows t)); [|lia].
    rewrite Hm, Hc, Hs.
    apply legend_loop_fuel_irrelevant; lia.
Qed.

Lemma find_abbrev_from_none (row : list cell) :
  (forall c, In c row -> is_abbrev_header c = false) ->
  forall k, find_abbrev_from k row = None.
Proof.
  induction row as [|c r IH]; intros H k; simpl; [reflexivity|].
  rewrite (H c (or_introl eq_refl)).
  apply IH; intros c' Hc'; apply H; right; exact Hc'.
Qed.

Lemma not_abbrev_header (c : cell) :
  strip (str c) <> "Abbreviation" -> strip (str c) <> "Abbrevation" ->
  is_abbrev_header c = false.
Proof.
  intros H1 H2; destruct c as [|s|r]; simpl in *; try reflexivity.
  unfold mem; simpl.
  destruct (String.eqb_spec (strip s) "Abbreviation"); [contradiction|].
  destruct (String.eqb_spec (strip s) "Abbrevation"); [contradiction|].
  reflexivity.
Qed.

(** C6 (as the code has it): when the outer scan arrives at the marker row
    [i] of a with-abbreviation category and no cell of that row trims to
    "Abbreviation" or "Abbrevation", the parse fails with the structural
    error naming row [i]. *)
Theorem read_legend_no_abbrev_header (t : table) (i : nat) (d : dict) :
  2 <= ncols t ->
  loop_reaches t i d -> i < n_rows t ->
  mem (cell_str (cell_at t i 1)) TARGET_WITH_ABBREVIATION = true ->
  (forall c, In c (row_at t i) ->
     strip (str c) <> "Abbreviation" /\ strip (str c) <> "Abbrevation") ->
  read_legend t = Raise (ValueError (msg_no_abbrev i)).
Proof.
  intros Hnc Hr Hi Hw Hrow.
  unfold read_legend; destruct (Nat.ltb_spec (ncols t) 2); [lia|].
  rewrite (loop_reaches_run t i d Hr (S (n_rows t - i))) by lia.
  cbn [legend_loop]; destruct (Nat.ltb_spec i (n_rows t)); [|lia].
  assert (Hm : mem (cell_str (cell_at t i 1))
                 (TARGET_WITH_ABBREVIATION ++ TARGET_WITHOUT_ABBREVIATION) = true).
  { unfold mem in *; rewrite existsb_app, Hw; reflexivity. }
  rewrite Hm; unfold choose_column; rewrite Hw.
  unfold find_abbrev; rewrite find_abbrev_from_none; [reflexivity|].
  intros c Hc; destruct (Hrow c Hc); apply not_abbrev_header; assumption.
Qed.

Lemma read_legend_no_abbrev_header_witness :
  read_legend t_pump_no_header
  = Raise (ValueError "No 'Abbreviation' column found in row 1.").
Proof.
  set (t := t_pump_no_header).
  assert (Hr : loop_reaches t 1 []).
  { apply (reach_next t 0 []); [apply reach_start | unfold t, t_pump_no_header, n_rows; simpl; lia | reflexivity]. }
  rewrite (read_legend_no_abbrev_header t 1 [] ltac:(unfold t, t_pump_no_header, n_rows; simpl; lia) Hr
             ltac:(unfold t, t_pump_no_header, n_rows; simpl; lia) eq_refl).
  - reflexivity.
  - simpl; intros c [<-|[<-|[]]]; split; intro H; vm_compute in H; discriminate.
Defined.

(** C6 as stated fails: the "Pump" marker row of [t_marker_in_run] has no
    abbreviation header, yet it lies inside the run of "Device Name", is
    consumed as one of its values, and the parse succeeds. *)
Lemma read_legend_marker_in_run_counterexample :
  mem (cell_str (cell_at t_marker_in_run 1 1)) TARGET_WITH_ABBREVIATION = true /\
  (forall c, In c (row_at t_marker_in_run 1) ->
     strip (str c) <> "Abbreviation" /\ strip (str c) <> "Abbrevation") /\
  read_legend t_marker_in_run = Ok [("Device Name", ["Pump"])].
Proof.
  split; [reflexivity|]; split; [|reflexivity].
  simpl; intros c [<-|[<-|[]]]; split; intro H; vm_compute in H; discriminate.
Qed.

(** ** The dictionary and the sequence of assignments *)

Lemma legend_loop_events (t : table) :
  forall fuel i d,
    legend_loop t fuel i d
    = match legend_events t fuel i with
      | Ok evs => Ok (apply_events d evs)
      | Raise e => Raise e
      | OutOfFuel => OutOfFuel
      end.
Proof.
  induction fuel as [|fuel IH]; intros i d; [reflexivity|].
  cbn [legend_loop legend_events].
  destruct (Nat.ltb i (n_rows t)); [|reflexivity].
  destruct (mem _ (_ ++ _)).
  - destruct (choose_column t _ i) as [col|e|]; try reflexivity.
    destruct (scan_run _ _ _ _) as [vals j].
    rewrite IH; destruct (legend_events t fuel j); reflexivity.
  - destruct (mem _ SKIP); apply IH.
Qed.

Lemma dict_get_set (k k' : string) (v : list string) (d : dict) :
  dict_get k' (dict_set k v d) = if String.eqb k' k then Some v else dict_get k' d.
Proof.
  induction d as [|[k0 v0] d IH]; simpl; [reflexivity|].
  destruct (String.eqb_spec k k0) as [->|Hne]; simpl.
  - destruct (String.eqb k' k0); reflexivity.
  - rewrite IH.
    destruct (String.eqb_spec k' k0) as [->|]; [|reflexivity].
    destruct (String.eqb_spec k0 k); [congruence | reflexivity].
Qed.

Lemma dict_set_keys (k x : string) (v : list string) (d : dict) :
  In x (map fst (dict_set k v d)) <-> x = k \/ In x (map fst d).
Proof.
  induction d as [|[k0 v0] d IH]; simpl; [intuition congruence|].
  destruct (String.eqb_spec k k0) as [->|]; simpl; [intuition congruence|].
  rewrite IH; intuition congruence.
Qed.

Lemma dict_set_nodup (k : string) (v : list string) (d : dict) :
  NoDup (map fst d) -> NoDup (map fst (dict_set k v d)).
Proof.
  induction d as [|[k0 v0] d IH]; simpl; intros H.
  - constructor; [intros []|constructor].
  - inversion H as [|? ? Hnin Hnd]; subst.
    destruct (String.eqb_spec k k0) as [->|Hne]; simpl; [constructor; assumption|].
    constructor; [|apply IH; assumption].
    rewrite dict_set_keys; intros [->|]; [congruence | contradiction].
Qed.

Lemma dict_get_app (k : string) (l1 l2 : dict) :
  dict_get k (l1 ++ l2)
  = match dict_get k l1 with Some v => Some v | None => dict_get k l2 end.
Proof.
  induction l1 as [|[k0 v0] l1 IH]; simpl; [reflexivity|].
  destruct (String.eqb k k0); [reflexivity | apply IH].
Qed.

Lemma apply_events_get (k : string) :
  forall evs d,
    dict_get k (apply_events d evs)
    = match dict_get k (rev evs) with Some v => Some v | None => dict_get k d end.
Proof.
  induction evs as [|[k0 v0] evs IH]; intros d; [reflexivity|].
  unfold apply_events; simpl fold_left; fold (apply_events (dict_set k0 v0 d) evs).
  rewrite IH; simpl rev; rewrite dict_get_app, dict_get_set.
  destruct (dict_get k (rev evs)); [reflexivity|]; simpl.
  destruct (String.eqb k k0); reflexivity.
Qed.

Lemma apply_events_nodup :
  forall evs d, NoDup (map fst d) -> NoDup (map fst (apply_events d evs)).
Proof.
  induction evs as [|[k0 v0] evs IH]; intros d H; [exact H|].
  apply IH, dict_set_nodup, H.
Qed.


Lemma legend_events_processed (t : table) :
  forall fuel i d evs, loop_reaches t i d -> legend_events t fuel i = Ok evs ->
    Forall (processed_marker t) evs.
Proof.
  induction fuel as [|fuel IH]; intros i d evs Hr H; [discriminate|].
  cbn [legend_events] in H.
  destruct (Nat.ltb_spec i (n_rows t)) as [Hi|]; [|inversion H; constructor].
  destruct (mem _ (_ ++ _)) eqn:Hm.
  - destruct (choose_column t _ i) as [col|e|] eqn:Hc; try discriminate.
    destruct (scan_run _ _ _ _) as [vals j] eqn:Hs.
    destruct (legend_events t fuel j) as [evs'| |] eqn:He; try discriminate.
    inversion H; subst; constructor.
    + exists i, d, col, j; repeat split; assumption.
    + eapply (IH j); [eapply reach_run; eauto | exact He].
  - destruct (mem _ SKIP);
      (apply (IH (S i) d evs); [apply reach_next; assumption | exact H]).
Qed.

(** C9 (as the code has it): a category name gets at most one entry in the
    returned mapping, and its Option List is the one of the last assignment
    [results[current_cat] = vals] executed for that name, in execution
    order; every assignment comes from a marker row the outer scan
    processes (a marker row consumed by an earlier run is not one).  Runs
    are not merged. *)
Theorem read_legend_last_processed_marker (t : table) (d : dict) :
  read_legend t = Ok d ->
  exists evs, read_legend_events t = Ok evs /\
    NoDup (map fst d) /\
    (forall k, dict_get k d = dict_get k (rev evs)) /\
    Forall (processed_marker t) evs.
Proof.
  unfold read_legend, read_legend_events.
  destruct (Nat.ltb (ncols t) 2); [discriminate|].
  rewrite legend_loop_events.
  destruct (legend_events t _ 0) as [evs| |] eqn:He; intros H; inversion H; subst.
  exists evs; split; [reflexivity|]; split; [|split].
  - apply apply_events_nodup; constructor.
  - intros k; rewrite apply_events_get; destruct (dict_get k (rev evs)); reflexivity.
  - eapply legend_events_processed; [apply reach_start | exact He].
Qed.

Lemma read_legend_last_processed_marker_witness :
  read_legend t_repeated = Ok [("Coolant", ["b"])] /\
  exists evs, read_legend_events t_repeated = Ok evs /\
    NoDup (map fst [("Coolant", ["b"])]) /\
    (forall k, dict_get k [("Coolant", ["b"])] = dict_get k (rev evs)) /\
    Forall (processed_marker t_repeated) evs.
Proof.
  split; [reflexivity|].
  apply read_legend_last_processed_marker; reflexivity.
Defined.

(** C9 as stated fails: in [t_repeat_in_run] the name "Coolant" last occurs
    in the key column at row 5, whose run would be empty, but that row lies
    in the run of the marker at row 3 and is read as a value: the mapping
    holds ["b"; "Coolant"]. *)
Lemma read_legend_repeat_in_run_counterexample :
  cell_str (cell_at t_repeat_in_run 3 1) = "Coolant" /\
  cell_str (cell_at t_repeat_in_run 5 1) = "Coolant" /\
  n_rows t_repeat_in_run = 6 /\
  scan_run t_repeat_in_run "Coolant" 1 5 = ([], 6) /\
  read_legend t_repeat_in_run = Ok [("Coolant", ["b"; "Coolant"])].
Proof. repeat split. Qed.

(** ** The abbreviation header *)

Lemma find_abbrev_from_shift (row : list cell) :
  forall idx, find_abbrev_from (S idx) row = option_map S (find_abbrev_from idx row).
Proof.
  induction row as [|c r IH]; intros idx; simpl; [reflexivity|].
  destruct (is_abbrev_header c); [reflexivity | apply IH].
Qed.

Lemma find_abbrev_first (row : list cell) :
  forall k,
    find_abbrev row = Some k <->
    k < length row /\ is_abbrev_header (nth k row CNaN) = true /\
    (forall m, m < k -> is_abbrev_header (nth m row CNaN) = false).
Proof.
  unfold find_abbrev.
  induction row as [|c r IH]; intros k; simpl.
  - split; [discriminate | intros [H _]; lia].
  - rewrite find_abbrev_from_shift.
    destruct (is_abbrev_header c) eqn:Hc; split.
    + intros H; inversion H; subst; split; [lia|]; split; [exact Hc|].
      intros m Hm; lia.
    + intros (_ & _ & Hm); destruct k as [|k]; [reflexivity|].
      specialize (Hm 0 ltac:(lia)); simpl in Hm; congruence.
    + destruct (find_abbrev_from 0 r) as [k'|] eqn:Hf; simpl; [|discriminate].
      intros H; inversion H; subst.
      destruct (proj1 (IH k') eq_refl) as (Hl & Hh & Hm).
      split; [lia|]; split; [exact Hh|].
      intros [|m] Hlt; [exact Hc | apply Hm; lia].
    + intros (Hl & Hh & Hm); destruct k as [|k]; [simpl in Hh; congruence|].
      rewrite (proj2 (IH k)); [reflexivity|].
      split; [lia|]; split; [exact Hh|].
      intros m Hlt; apply (Hm (S m)); lia.
Qed.

Lemma find_abbrev_from_same_header (pre post : list cell) (c1 c2 : cell) :
  is_abbrev_header c1 = is_abbrev_header c2 ->
  forall idx, find_abbrev_from idx (pre ++ c1 :: post)
              = find_abbrev_from idx (pre ++ c2 :: post).
Proof.
  intros H; induction pre as [|c pre IH]; intros idx; simpl.
  - rewrite H; reflexivity.
  - rewrite IH; reflexivity.
Qed.

(** C7: the value column of a with-abbreviation marker row is the column of
    the first cell that is a string trimming to "Abbreviation" or
    "Abbrevation"; a header cell with the misspelling selects the same
    column as the correctly spelled one in its place. *)
Theorem abbrev_column_either_spelling :
  (forall row k,
     find_abbrev row = Some k <->
     k < length row /\ is_abbrev_header (nth k row CNaN) = true /\
     (forall m, m < k -> is_abbrev_header (nth m row CNaN) = false)) /\
  (forall s, is_abbrev_header (CStr s) = true <->
             strip s = "Abbreviation" \/ strip s = "Abbrevation") /\
  (forall pre post s1 s2,
     strip s1 = "Abbrevation" -> strip s2 = "Abbreviation" ->
     find_abbrev (pre ++ CStr s1 :: post) = find_abbrev (pre ++ CStr s2 :: post)).
Proof.
  split; [exact find_abbrev_first|]; split.
  - intros s; unfold is_abbrev_header, mem; simpl.
    destruct (String.eqb_spec (strip s) "Abbreviation");
      destruct (String.eqb_spec (strip s) "Abbrevation"); simpl;
      intuition (congruence || discriminate).
  - intros pre post s1 s2 H1 H2; unfold find_abbrev.
    apply find_abbrev_from_same_header; simpl; rewrite H1, H2; reflexivity.
Qed.

Lemma abbrev_column_either_spelling_witness :
  strip " Abbrevation" = "Abbrevation" /\ strip "Abbreviation " = "Abbreviation" /\
  find_abbrev ([CNaN; CStr "Pump"] ++ CStr " Abbrevation" :: [CStr "Abbreviation"])
  = find_abbrev ([CNaN; CStr "Pump"] ++ CStr "Abbreviation " :: [CStr "Abbreviation"]) /\
  find_abbrev ([CNaN; CStr "Pump"] ++ CStr " Abbrevation" :: [CStr "Abbreviation"])
  = Some 2.
Proof.
  split; [reflexivity|]; split; [reflexivity|]; split; [|reflexivity].
  apply (proj2 (proj2 abbrev_column_either_spelling)); reflexivity.
Defined.

(** ** The placeholder "?" *)

(** C2 (divergence): the cell " ? " of [t_qmark_padded] is non-blank and
    trims to "?", but the code compares the raw value with "?", so it is
    kept and "?" enters the Option List of "Coolant". *)
Theorem read_legend_padded_qmark :
  cell_str (cell_at t_qmark_padded 2 1) = "?" /\
  is_blank (cell_at t_qmark_padded 2 1) = false /\
  read_legend t_qmark_padded = Ok [("Coolant", ["X"; "?"])].
Proof. split; [reflexivity|]; split; reflexivity. Qed.

(** ** [strip] *)

Lemma lstrip_list (s : string) :
  list_ascii_of_string (lstrip s) = lstrip_l (list_ascii_of_string s).
Proof.
  induction s as [|a s IH]; simpl; [reflexivity|].
  destruct (is_space a); [exact IH | reflexivity].
Qed.

Lemma strip_list (s : string) :
  list_ascii_of_string (strip s)
  = lstrip_l (rev (lstrip_l (rev (list_ascii_of_string s)))).
Proof.
  unfold strip, rstrip.
  rewrite lstrip_list, list_ascii_of_string_of_list_ascii, lstrip_list,
    list_ascii_of_string_of_list_ascii; reflexivity.
Qed.

Lemma lstrip_l_head (l : list ascii) :
  forall c r, lstrip_l l = c :: r -> is_space c = false.
Proof.
  induction l as [|a l IH]; simpl; intros c r H; [discriminate|].
  destruct (is_space a) eqn:Ha; [exact (IH c r H)|].
  inversion H; subst; exact Ha.
Qed.

Lemma lstrip_l_suffix (l : list ascii) : exists p, l = p ++ lstrip_l l.
Proof.
  induction l as [|a l [p Hp]]; simpl; [exists []; reflexivity|].
  destruct (is_space a); [exists (a :: p); simpl; f_equal; exact Hp|].
  exists []; reflexivity.
Qed.

Lemma strip_l_last (l : list ascii) :
  forall p c, lstrip_l (rev (lstrip_l (rev l))) = p ++ [c] -> is_space c = false.
Proof.
  intros p c H.
  destruct (lstrip_l_suffix (rev (lstrip_l (rev l)))) as [q Hq].
  rewrite H, app_assoc in Hq.
  apply (f_equal (@rev ascii)) in Hq.
  rewrite rev_involutive, rev_app_distr in Hq; simpl in Hq.
  exact (lstrip_l_head _ _ _ Hq).
Qed.

Lemma strip_l_fixed (x : list ascii) :
  (forall c r, x = c :: r -> is_space c = false) ->
  (forall p c, x = p ++ [c] -> is_space c = false) ->
  lstrip_l (rev (lstrip_l (rev x))) = x.
Proof.
  intros Hh Hl.
  destruct (rev x) as [|c r] eqn:Hr.
  - apply (f_equal (@rev ascii)) in Hr; rewrite rev_involutive in Hr; subst; reflexivity.
  - assert (Hx : x = rev r ++ [c]).
    { rewrite <- (rev_involutive x), Hr; reflexivity. }
    simpl; rewrite (Hl (rev r) c Hx), <- Hr, rev_involutive.
    destruct x as [|a x']; [reflexivity|]; simpl.
    rewrite (Hh a x' eq_refl); reflexivity.
Qed.

Lemma strip_idempotent (s : string) : strip (strip s) = strip s.
Proof.
  assert (H : list_ascii_of_string (strip (strip s)) = list_ascii_of_string (strip s)).
  { rewrite (strip_list (strip s)), strip_list.
    apply strip_l_fixed; [apply lstrip_l_head | apply strip_l_last]. }
  rewrite <- (string_of_list_ascii_of_string (strip (strip s))), H.
  apply string_of_list_ascii_of_string.
Qed.

(** ** What [read_legend] returns *)


Lemma scan_clean (cat : string) (cells : list cell) :
  forall k j vals, Forall clean_option vals ->
    Forall clean_option (fst (scan cat cells k j vals)).
Proof.
  induction cells as [|c r IH]; intros k j vals H; cbn [scan]; [exact H|].
  destruct (is_blank c) eqn:Hb.
  - destruct (_ || _); [exact H | apply IH, H].
  - apply IH; destruct (neq_qmark c); [|exact H].
    apply Forall_app; split; [exact H|]; constructor; [|constructor].
    split; [|apply strip_idempotent].
    unfold is_blank in Hb; apply orb_false_iff in Hb; destruct Hb as [_ Hb].
    apply String.eqb_neq, Hb.
Qed.



Lemma legend_events_good (t : table) :
  forall fuel i evs, legend_events t fuel i = Ok evs -> Forall good_entry evs.
Proof.
  induction fuel as [|fuel IH]; intros i evs H; [discriminate|].
  cbn [legend_events] in H.
  destruct (Nat.ltb i (n_rows t)); [|inversion H; constructor].
  destruct (mem _ (_ ++ _)) eqn:Hm.
  - destruct (choose_column t _ i) as [col|e|]; try discriminate.
    pose proof (scan_clean (cell_str (cell_at t i 1))
                  (column_from t col (S i)) 0 (S i) [] (Forall_nil _)) as Hc.
    unfold scan_run in H.
    destruct (scan _ _ _ _ _) as [vals j]; simpl in Hc.
    destruct (legend_events t fuel j) as [evs'| |] eqn:He; try discriminate.
    inversion H; subst; constructor; [split; assumption | eapply IH; eauto].
  - destruct (mem _ SKIP); eapply IH; eauto.
Qed.

Lemma dict_set_forall (P : string * list string -> Prop) (k : string)
    (v : list string) (d : dict) :
  Forall P d -> P (k, v) -> Forall P (dict_set k v d).
Proof.
  induction d as [|[k0 v0] d IH]; simpl; intros Hd Hkv; [repeat constructor; exact Hkv|].
  inversion Hd; subst.
  destruct (String.eqb k k0); constructor; auto.
Qed.

Lemma apply_events_forall (P : string * list string -> Prop) :
  forall evs d, Forall P d -> Forall P evs -> Forall P (apply_events d evs).
Proof.
  induction evs as [|[k v] evs IH]; intros d Hd He; [exact Hd|].
  inversion He; subst; apply IH; [apply dict_set_forall|]; assumption.
Qed.

Lemma read_legend_good (t : table) (d : dict) :
  read_legend t = Ok d -> Forall good_entry d.
Proof.
  unfold read_legend; destruct (Nat.ltb (ncols t) 2); [discriminate|].
  rewrite legend_loop_events.
  destruct (legend_events t _ 0) as [evs| |] eqn:He; intros H; inversion H; subst.
  apply apply_events_forall; [constructor | eapply legend_events_good; eauto].
Qed.

(** X1: every option string of the returned mapping is non-empty and has
    no leading or trailing whitespace ([v.strip() == v]); in particular the
    placeholder "" of the selectors is never one of the parsed options. *)
Theorem read_legend_options_clean (t : table) (d : dict) :
  read_legend t = Ok d ->
  forall k vs v, In (k, vs) d -> In v vs -> v <> "" /\ strip v = v.
Proof.
  intros H k vs v Hin Hv.
  pose proof (proj1 (Forall_forall _ _) (read_legend_good t d H) _ Hin) as [_ Hc].
  exact (proj1 (Forall_forall _ _) Hc v Hv).
Qed.

Lemma read_legend_options_clean_witness :
  read_legend t_c1_sample = Ok [("Device Name", ["Alpha"]); ("Coolant", ["X"; "Y"])] /\
  ("Y" <> "" /\ strip "Y" = "Y").
Proof.
  split; [reflexivity|].
  apply (read_legend_options_clean t_c1_sample
           [("Device Name", ["Alpha"]); ("Coolant", ["X"; "Y"])] eq_refl
           "Coolant" ["X"; "Y"] "Y"); simpl; auto.
Defined.

Lemma mem_In (k : string) (l : list string) : mem k l = true <-> In k l.
Proof.
  unfold mem; rewrite existsb_exists; split.
  - intros (x & Hx & He); apply String.eqb_eq in He; subst; exact Hx.
  - intros H; exists k; split; [exact H | apply String.eqb_refl].
Qed.

Lemma read_legend_nodup (t : table) (d : dict) :
  read_legend t = Ok d -> NoDup (map fst d).
Proof.
  unfold read_legend; destruct (Nat.ltb (ncols t) 2); [discriminate|].
  rewrite legend_loop_events.
  destruct (legend_events t _ 0) as [evs| |]; intros H; inversion H; subst.
  apply apply_events_nodup; constructor.
Qed.

(** X2: the keys of the returned mapping are recognised categories (with
    or without abbreviation column), never one of the SKIP names, each at
    most once; so the mapping has at most six entries. *)
Theorem read_legend_keys (t : table) (d : dict) :
  read_legend t = Ok d ->
  NoDup (map fst d) /\
  (forall k, In k (map fst d) -> In k CATEGORIES /\ ~ In k SKIP) /\
  length d <= 6.
Proof.
  intros H; pose proof (read_legend_good t d H) as Hg.
  split; [exact (read_legend_nodup t d H)|].
  assert (Hk : forall k, In k (map fst d) -> In k CATEGORIES).
  { intros k Hk; apply in_map_iff in Hk; destruct Hk as ([k' v] & <- & Hin).
    apply mem_In; exact (proj1 (proj1 (Forall_forall _ _) Hg _ Hin)). }
  split.
  - intros k Hin; split; [exact (Hk k Hin)|].
    specialize (Hk k Hin); unfold CATEGORIES in Hk; simpl in Hk.
    intros Hs; simpl in Hs.
    intuition (subst; discriminate).
  - rewrite <- (length_map fst d).
    change 6 with (length CATEGORIES).
    apply NoDup_incl_length; [apply (read_legend_nodup t d H)|].
    intros k; apply Hk.
Qed.

Lemma read_legend_keys_witness :
  read_legend t_reorder = Ok [("Coolant", ["c"]); ("Device Name", ["b"])] /\
  NoDup ["Coolant"; "Device Name"] /\
  (forall k, In k ["Coolant"; "Device Name"] -> In k CATEGORIES /\ ~ In k SKIP) /\
  2 <= 6.
Proof.
  split; [reflexivity|].
  exact (read_legend_keys t_reorder _ eq_refl).
Defined.

Lemma dict_set_keys_order (k : string) (v : list string) (d : dict) :
  map fst (dict_set k v d)
  = if mem k (map fst d) then map fst d else map fst d ++ [k].
Proof.
  induction d as [|[k0 v0] d IH]; simpl; [reflexivity|].
  unfold mem in *; simpl.
  destruct (String.eqb_spec k k0) as [->|]; simpl; [reflexivity|].
  rewrite IH; destruct (existsb _ _); reflexivity.
Qed.

Lemma apply_events_keys (evs : list (string * list string)) :
  forall d, map fst (apply_events d evs)
  = fold_left (fun acc x => if mem x acc then acc else acc ++ [x]) (map fst evs)
              (map fst d).
Proof.
  induction evs as [|[k v] evs IH]; intros d; [reflexivity|].
  unfold apply_events; simpl fold_left; fold (apply_events (dict_set k v d) evs).
  rewrite IH, dict_set_keys_order; reflexivity.
Qed.

Lemma selector_labels (d : dict) : map fst (selector_options d) = map fst d.
Proof. unfold selector_options; rewrite map_map; reflexivity. Qed.

Lemma forall2_labels (opts : list (string * list string)) (sel : list (string * string)) :
  Forall2 (fun kv sc => fst sc = fst kv) opts sel -> map fst sel = map fst opts.
Proof. induction 1; simpl; f_equal; assumption. Qed.

(** X3: the selectors of the form, and so the selections passed in that
    order to the folder name, follow the order in which each category is
    first assigned by the outer scan; a later marker of the same category
    replaces its options (those of the last assignment) without moving its
    selector. *)
Theorem read_legend_key_order (t : table) (d : dict) :
  read_legend t = Ok d ->
  exists evs, read_legend_events t = Ok evs /\
    map fst (selector_options d) = first_occurrences (map fst evs) /\
    (forall k, dict_get k d = dict_get k (rev evs)) /\
    (forall sel : list (string * string),
       Forall2 (fun kv sc => fst sc = fst kv) (selector_options d) sel ->
       map fst sel = first_occurrences (map fst evs)).
Proof.
  unfold read_legend, read_legend_events.
  destruct (Nat.ltb (ncols t) 2); [discriminate|].
  rewrite legend_loop_events.
  destruct (legend_events t _ 0) as [evs| |]; intros H; inversion H; subst.
  exists evs; split; [reflexivity|].
  assert (Hk : map fst (selector_options (apply_events [] evs))
               = first_occurrences (map fst evs)).
  { rewrite selector_labels; apply apply_events_keys. }
  split; [exact Hk|]; split.
  - intros k; rewrite apply_events_get; destruct (dict_get k (rev evs)); reflexivity.
  - intros sel Hs; rewrite (forall2_labels _ _ Hs); exact Hk.
Qed.

Lemma read_legend_key_order_witness :
  read_legend t_reorder = Ok [("Coolant", ["c"]); ("Device Name", ["b"])] /\
  exists evs, read_legend_events t_reorder = Ok evs /\
    ["Coolant"; "Device Name"] = first_occurrences (map fst evs) /\
    (forall k, dict_get k [("Coolant", ["c"]); ("Device Name", ["b"])]
               = dict_get k (rev evs)) /\
    (forall sel : list (string * string),
       Forall2 (fun kv sc => fst sc = fst kv)
         (selector_options [("Coolant", ["c"]); ("Device Name", ["b"])]) sel ->
       map fst sel = first_occurrences (map fst evs)).
Proof.
  split; [reflexivity|].
  exact (read_legend_key_order t_reorder _ eq_refl).
Defined.

Lemma legend_loop_raise (t : table) :
  forall fuel i d e, loop_reaches t i d -> legend_loop t fuel i d = Raise e ->
  exists i' d', loop_reaches t i' d' /\ i' < n_rows t /\
    mem (cell_str (cell_at t i' 1)) TARGET_WITH_ABBREVIATION = true /\
    find_abbrev (row_at t i') = None /\ e = ValueError (msg_no_abbrev i').
Proof.
  induction fuel as [|fuel IH]; intros i d e Hr H; [discriminate|].
  cbn [legend_loop] in H.
  destruct (Nat.ltb_spec i (n_rows t)) as [Hi|]; [|discriminate].
  destruct (mem _ (_ ++ _)) eqn:Hm.
  - destruct (choose_column t _ i) as [col|e'|] eqn:Hc; try discriminate.
    + destruct (scan_run _ _ _ _) as [vals j] eqn:Hs.
      eapply IH; [eapply reach_run; eauto | exact H].
    + inversion H; subst.
      unfold choose_column in Hc.
      destruct (mem _ TARGET_WITH_ABBREVIATION) eqn:Hw; [|discriminate].
      destruct (find_abbrev _) eqn:Hf; [discriminate|].
      inversion Hc; subst.
      exists i, d; repeat split; assumption.
  - destruct (mem _ SKIP);
      (apply (IH (S i) d e); [apply reach_next; assumption | exact H]).
Qed.

(** X4: the only errors of [read_legend] are the two [ValueError]s: fewer
    than two columns, or a with-abbreviation marker row reached by the
    outer scan whose cells have no abbreviation header, named by its row. *)
Theorem read_legend_errors (t : table) (e : error) :
  read_legend t = Raise e ->
  (ncols t < 2 /\ e = ValueError msg_columns) \/
  (2 <= ncols t /\ exists i d, loop_reaches t i d /\ i < n_rows t /\
     mem (cell_str (cell_at t i 1)) TARGET_WITH_ABBREVIATION = true /\
     find_abbrev (row_at t i) = None /\ e = ValueError (msg_no_abbrev i)).
Proof.
  unfold read_legend; destruct (Nat.ltb_spec (ncols t) 2) as [Hc|Hc]; intros Hr.
  - left; inversion Hr; split; [assumption | reflexivity].
  - right; split; [lia|].
    eapply legend_loop_raise; [apply reach_start | exact Hr].
Qed.

Lemma read_legend_errors_witness :
  read_legend t_pump_no_header
    = Raise (ValueError "No 'Abbreviation' column found in row 1.") /\
  ((ncols t_pump_no_header < 2 /\
    ValueError "No 'Abbreviation' column found in row 1." = ValueError msg_columns) \/
   (2 <= ncols t_pump_no_header /\ exists i d,
      loop_reaches t_pump_no_header i d /\ i < n_rows t_pump_no_header /\
      mem (cell_str (cell_at t_pump_no_header i 1)) TARGET_WITH_ABBREVIATION = true /\
      find_abbrev (row_at t_pump_no_header i) = None /\
      ValueError "No 'Abbreviation' column found in row 1."
      = ValueError (msg_no_abbrev i))).
Proof.
  split; [reflexivity|].
  apply read_legend_errors; reflexivity.
Defined.

Lemma legend_loop_no_marker (t : table) :
  (forall i, i < n_rows t -> mem (cell_str (cell_at t i 1)) CATEGORIES = false) ->
  forall fuel i d, n_rows t - i < fuel -> legend_loop t fuel i d = Ok d.
Proof.
  intros Hno; induction fuel as [|fuel IH]; intros i d Hf; [lia|].
  cbn [legend_loop].
  destruct (Nat.ltb_spec i (n_rows t)) as [Hi|]; [|reflexivity].
  pose proof (Hno i Hi) as Hm; unfold CATEGORIES in Hm; rewrite Hm.
  destruct (mem _ SKIP); apply IH; lia.
Qed.

(** X5: on a table of at least two columns whose key column (index 1) holds
    no recognised category, e.g. only SKIP names, other text or blanks (or
    no rows at all), the parser returns the empty mapping, and no error. *)
Theorem read_legend_no_marker (t : table) :
  2 <= ncols t ->
  (forall i, i < n_rows t -> mem (cell_str (cell_at t i 1)) CATEGORIES = false) ->
  read_legend t = Ok [].
Proof.
  intros Hc Hno; unfold read_legend.
  destruct (Nat.ltb_spec (ncols t) 2); [lia|].
  apply legend_loop_no_marker; [exact Hno | lia].
Qed.

Lemma read_legend_no_marker_witness :
  (forall i, i < n_rows t_skip_only ->
     mem (cell_str (cell_at t_skip_only i 1)) CATEGORIES = false) /\
  read_legend t_skip_only = Ok [].
Proof.
  assert (H : forall i, i < n_rows t_skip_only ->
            mem (cell_str (cell_at t_skip_only i 1)) CATEGORIES = false).
  { intros i Hi; unfold n_rows in Hi; simpl in Hi.
    do 4 (destruct i as [|i]; [reflexivity|]); lia. }
  split; [exact H|].
  apply read_legend_no_marker; [simpl; lia | exact H].
Defined.

(** ** The form and the folder path *)

Lemma chosen_nonempty (d : dict) (sel : list (string * string)) :
  Forall good_entry d ->
  Forall2 (fun kv sc => fst sc = fst kv /\ In (snd sc) (snd kv)) d sel ->
  existsb (fun v => String.eqb v "") (map snd sel) = false.
Proof.
  intros Hg H2; induction H2 as [|kv sc d sel [_ Hin] _ IH]; [reflexivity|].
  inversion Hg as [|? ? [_ Hc] Hg']; subst; simpl.
  rewrite (IH Hg').
  destruct (proj1 (Forall_forall _ _) Hc _ Hin) as [Hne _].
  apply String.eqb_neq in Hne; rewrite Hne; reflexivity.
Qed.

(** X6: when every selector of the parsed mapping is set to one of its
    parsed options (not the placeholder) and the time and server fields
    contain non-whitespace text, "Create Folder" passes validation (no
    warning): it creates [create_folder out_dir selections time server] and
    reports "Folder created" with that path, or, when [os.makedirs] raises,
    reports "Error creating folder: " with the exception's text. *)
Theorem create_button_parsed_choices (makedirs : string -> option string)
    (t : table) (d : dict) (sel : list (string * string))
    (out_dir time_input server_input : string) :
  read_legend t = Ok d ->
  Forall2 (fun kv sc => fst sc = fst kv /\ In (snd sc) (snd kv)) d sel ->
  strip time_input <> "" -> strip server_input <> "" ->
  create_button makedirs out_dir sel time_input server_input
  = match makedirs (create_folder out_dir (map snd sel) time_input server_input) with
    | None => UISuccess ("Folder created:" ++ newline ++
                create_folder out_dir (map snd sel) time_input server_input)%string
    | Some e => UIError ("Error creating folder: " ++ e)%string
    end.
Proof.
  intros Hd Hsel Ht Hs; unfold create_button.
  rewrite (chosen_nonempty d sel (read_legend_good t d Hd) Hsel).
  apply String.eqb_neq in Ht, Hs; rewrite Ht, Hs; reflexivity.
Qed.


Lemma create_button_parsed_choices_witness :
  create_button makedirs_ro "out" [("Device Name", "Alpha"); ("Coolant", "Y")]
    " 14-00 " "S1"
  = UISuccess ("Folder created:" ++ newline ++ "out/Alpha_Y_14-00_S1")%string /\
  create_button makedirs_ro "/ro" [("Device Name", "Alpha"); ("Coolant", "Y")]
    " 14-00 " "S1"
  = UIError "Error creating folder: [Errno 13] Permission denied".
Proof.
  split.
  - rewrite (create_button_parsed_choices makedirs_ro t_c1_sample
               [("Device Name", ["Alpha"]); ("Coolant", ["X"; "Y"])]
               [("Device Name", "Alpha"); ("Coolant", "Y")] "out" " 14-00 " "S1"
               eq_refl).
    + reflexivity.
    + constructor; [split; simpl; auto|].
      constructor; [split; simpl; auto | constructor].
    + discriminate.
    + discriminate.
  - rewrite (create_button_parsed_choices makedirs_ro t_c1_sample
               [("Device Name", ["Alpha"]); ("Coolant", ["X"; "Y"])]
               [("Device Name", "Alpha"); ("Coolant", "Y")] "/ro" " 14-00 " "S1"
               eq_refl).
    + reflexivity.
    + constructor; [split; simpl; auto|].
      constructor; [split; simpl; auto | constructor].
    + discriminate.
    + discriminate.
Defined.

Lemma folder_name_cons (x : string) (sel : list string) (ts ss : string) :
  folder_name (x :: sel) ts ss = (x ++ "_" ++ folder_name sel ts ss)%string.
Proof.
  unfold folder_name, join; simpl app.
  destruct (sel ++ [strip ts; strip ss]) eqn:H.
  - destruct sel; discriminate.
  - reflexivity.
Qed.

Lemma starts_with_slash_app (x y : string) :
  starts_with_slash (x ++ "_" ++ y)%string = starts_with_slash x.
Proof. destruct x; reflexivity. Qed.

(** X7: the path [create_folder] returns is [base_dir + "/" + name] for a
    non-empty [base_dir] without trailing slash, but when the first selection
    begins with "/" [os.path.join] discards [base_dir] and the folder name
    is used as an absolute path. *)
Theorem create_folder_path (base_dir x : string) (sel : list string)
    (time_str server_str : string) :
  (starts_with_slash x = true ->
   create_folder base_dir (x :: sel) time_str server_str
   = folder_name (x :: sel) time_str server_str) /\
  (starts_with_slash x = false -> base_dir <> "" -> ends_with_slash base_dir = false ->
   create_folder base_dir (x :: sel) time_str server_str
   = (base_dir ++ "/" ++ folder_name (x :: sel) time_str server_str)%string).
Proof.
  unfold create_folder, os_path_join.
  rewrite folder_name_cons, starts_with_slash_app.
  split; intros Hx; rewrite Hx; [reflexivity|].
  intros Hb He; apply String.eqb_neq in Hb; rewrite Hb, He; reflexivity.
Qed.

Lemma create_folder_path_witness :
  create_folder "/home/u/Desktop" ["/tmp/x"; "Y"] "t" "s" = "/tmp/x_Y_t_s" /\
  create_folder "/home/u/Desktop" ["X"; "Y"] "t" "s" = "/home/u/Desktop/X_Y_t_s".
Proof.
  split.
  - rewrite (proj1 (create_folder_path "/home/u/Desktop" "/tmp/x" ["Y"] "t" "s")
               eq_refl); reflexivity.
  - rewrite (proj2 (create_folder_path "/home/u/Desktop" "X" ["Y"] "t" "s")
               eq_refl ltac:(discriminate) eq_refl); reflexivity.
Defined.
